(** * arapunct2: the text-to-SQL fine-tuning script

    A shallow embedding of the repository-owned logic of [script.py] and
    [test.py]: the prompt template and its rendering with [str.format], the
    conversation builder [create_conversation], the precision selection
    ([torch_dtype]) in both files, and the evaluation steps at the end of
    [script.py] (random test sample, prompt turns, delimiter extraction with
    [re.search], the printed report).

    Python strings are sequences of Unicode code points; they are modelled as
    lists of code points ([N]).  Exceptions are modelled by a sum type, and
    the printing steps by a small output-and-error monad. *)

From Stdlib Require Import List NArith ZArith Bool Lia String Ascii.
Import ListNotations.

Set Implicit Arguments.

(* ================================================================= *)
(** ** Python strings *)

Module Str.

(** A character is a Unicode code point. *)
Definition char := N.
Definition str := list char.

(** A literal of the source, written as a Rocq string (the literals of the
    program are plain ASCII). *)
Definition lit (s : string) : str :=
  List.map N_of_ascii (list_ascii_of_string s).

Definition nl : char := 10%N.

Fixpoint eqb (a b : str) : bool :=
  match a, b with
  | [], [] => true
  | x :: a', y :: b' => N.eqb x y && eqb a' b'
  | _, _ => false
  end.

(** [s.startswith(p)] *)
Fixpoint startswith (p s : str) : bool :=
  match p, s with
  | [], _ => true
  | _ :: _, [] => false
  | x :: p', y :: s' => N.eqb x y && startswith p' s'
  end.

(** [p in s] *)
Fixpoint contains (p s : str) : bool :=
  startswith p s ||
  match s with
  | [] => false
  | _ :: s' => contains p s'
  end.

(** Number of positions of [s] at which [p] occurs. *)
Fixpoint count (p s : str) : nat :=
  (if startswith p s then 1 else 0) +
  match s with
  | [] => 0
  | _ :: s' => count p s'
  end.

(** [c.isspace()] for a code point: the characters [str.strip()] removes. *)
Definition isspace (c : char) : bool :=
  ((9 <=? c) && (c <=? 13) || (28 <=? c) && (c <=? 32)
   || (c =? 133) || (c =? 160) || (c =? 5760)
   || (8192 <=? c) && (c <=? 8202)
   || (c =? 8232) || (c =? 8233) || (c =? 8239) || (c =? 8287)
   || (c =? 12288))%N.

Fixpoint lstrip (s : str) : str :=
  match s with
  | [] => []
  | c :: s' => if isspace c then lstrip s' else s
  end.

Definition rstrip (s : str) : str := rev (lstrip (rev s)).

(** [s.strip()] *)
Definition strip (s : str) : str := rstrip (lstrip s).

End Str.

Import Str.

(* ================================================================= *)
(** ** Exceptions *)

Inductive exn_class : Type :=
| KeyError
| ValueError
| IndexError
| AttributeError
| RuntimeError
| KeyboardInterrupt.

(** An exception object: its class and [str(e)]. *)
Record exn : Type := Exn {
  exn_cls : exn_class;
  exn_str : str
}.

(** [isinstance(e, Exception)]: what [except Exception] catches.
    [KeyboardInterrupt] derives from [BaseException] only. *)
Definition is_Exception (e : exn) : bool :=
  match exn_cls e with
  | KeyboardInterrupt => false
  | _ => true
  end.

Inductive result (A : Type) : Type :=
| Ok (a : A)
| Raise (e : exn).
Arguments Ok {A} a.
Arguments Raise {A} e.

Definition rbind {A B} (r : result A) (k : A -> result B) : result B :=
  match r with
  | Ok a => k a
  | Raise e => Raise e
  end.

(* ================================================================= *)
(** ** [str.format] with keyword arguments *)

Module Format.

Definition kwargs := list (str * str).

Fixpoint lookup (k : str) (kw : kwargs) : result str :=
  match kw with
  | [] => Raise (Exn KeyError (lit "'" ++ k ++ lit "'"))
  | (k', v) :: kw' => if Str.eqb k k' then Ok v else lookup k kw'
  end.

Definition lbrace : char := 123%N.
Definition rbrace : char := 125%N.

(** Scanner state: in literal text, or inside a replacement field whose
    name has been read so far (in reverse). *)
Inductive state : Type :=
| Text
| Field (name_rev : str).

(** The replacement fields of the program are plain names; a field with a
    conversion, a format specification, an attribute or an index is outside
    this model and reported as a [ValueError]. *)
Definition plain (c : char) : bool :=
  negb ((c =? 33) || (c =? 58) || (c =? 46) || (c =? 91) || (c =? lbrace))%N.

Fixpoint go (kw : kwargs) (st : state) (t : str) {struct t} : result str :=
  match t with
  | [] =>
      match st with
      | Text => Ok []
      | Field _ => Raise (Exn ValueError (lit "expected '}' before end of string"))
      end
  | c :: t' =>
      match st with
      | Text =>
          if N.eqb c lbrace then
            match t' with
            | c' :: t'' =>
                if N.eqb c' lbrace
                then rbind (go kw Text t'') (fun r => Ok (lbrace :: r))
                else go kw (Field []) t'
            | [] => Raise (Exn ValueError (lit "Single '{' encountered in format string"))
            end
          else if N.eqb c rbrace then
            match t' with
            | c' :: t'' =>
                if N.eqb c' rbrace
                then rbind (go kw Text t'') (fun r => Ok (rbrace :: r))
                else Raise (Exn ValueError (lit "Single '}' encountered in format string"))
            | [] => Raise (Exn ValueError (lit "Single '}' encountered in format string"))
            end
          else rbind (go kw Text t') (fun r => Ok (c :: r))
      | Field name_rev =>
          if N.eqb c rbrace then
            rbind (lookup (rev name_rev) kw)
                  (fun v => rbind (go kw Text t') (fun r => Ok (v ++ r)))
          else if plain c then go kw (Field (c :: name_rev)) t'
          else Raise (Exn ValueError (lit "unsupported replacement field"))
      end
  end.

(** [template.format] applied to keyword arguments [kw] *)
Definition format (template : str) (kw : kwargs) : result str :=
  go kw Text template.

End Format.

(* ================================================================= *)
(** ** The prompt template and the conversation builder ([script.py]) *)

Definition system_message : str :=
  lit "You are a text to SQL query translator. Users will ask you questions in English and you will generate a SQL query based on the provided SCHEMA.".

Definition user_prompt : str :=
  lit "Given the <USER_QUERY> and the <SCHEMA>, generate the corresponding SQL command to retrieve the desired data, considering the query's syntax, semantics, and schema constraints.

<SCHEMA>
{context}
</SCHEMA>

<USER_QUERY>
{question}
</USER_QUERY>
".

(** A Raw Record of the dataset: the three text columns the script reads. *)
Record sample : Type := Sample {
  sql_prompt : str;
  sql_context : str;
  sql : str
}.

Inductive role : Type := system | user | assistant.

Record turn : Type := Turn {
  turn_role : role;
  content : str
}.

Record conversation : Type := Conversation {
  messages : list turn
}.

(** [user_prompt.format(question=..., context=...)] *)
Definition format_user_prompt (question context : str) : result str :=
  Format.format user_prompt
    [(lit "question", question); (lit "context", context)].

Definition create_conversation (s : sample) : result conversation :=
  rbind (format_user_prompt (sql_prompt s) (sql_context s)) (fun u =>
  Ok (Conversation [Turn user u; Turn assistant (sql s)])).

(** The three fixed pieces of the template around the two fields. *)
Definition preamble : str :=
  lit "Given the <USER_QUERY> and the <SCHEMA>, generate the corresponding SQL command to retrieve the desired data, considering the query's syntax, semantics, and schema constraints.".

Definition open_schema : str := lit "<SCHEMA>
".
Definition close_schema : str := lit "
</SCHEMA>".
Definition open_query : str := lit "<USER_QUERY>
".
Definition close_query : str := lit "
</USER_QUERY>".

Definition tag_schema : str := lit "<SCHEMA>".
Definition tag_end_schema : str := lit "</SCHEMA>".
Definition tag_query : str := lit "<USER_QUERY>".
Definition tag_end_query : str := lit "</USER_QUERY>".

(** The rendered prompt, piece by piece. *)
Definition rendered (question context : str) : str :=
  preamble ++ [nl; nl] ++ open_schema ++ context ++ close_schema
    ++ [nl; nl] ++ open_query ++ question ++ close_query ++ [nl].

(* ================================================================= *)
(** ** [re.search] for the two delimiter patterns

    Both patterns of the script have the shape [OPEN(.*?)CLOSE] with two
    literal delimiters and one lazy group, compiled with [re.DOTALL] (the dot
    matches every character, the newline too).  [search] follows the
    backtracking matcher: start positions are tried from the left, and at a
    start position the lazy group grows one character at a time until the
    closing literal matches. *)

Module Re.

(** Consume the literal [p] at the head of [s]. *)
Fixpoint literal (p s : str) : option str :=
  match p, s with
  | [], _ => Some s
  | _ :: _, [] => None
  | x :: p', y :: s' => if N.eqb x y then literal p' s' else None
  end.

(** The lazy group followed by the literal [close]: the shortest prefix of
    [s] after which [close] matches. *)
Fixpoint lazy_until (close s : str) : option str :=
  if startswith close s then Some []
  else match s with
       | [] => None
       | c :: s' => option_map (cons c) (lazy_until close s')
       end.

(** A match attempt at the first position of [s]; the result is group 1. *)
Definition match_here (open close s : str) : option str :=
  match literal open s with
  | Some rest => lazy_until close rest
  | None => None
  end.

(** [re.search(OPEN(.*?)CLOSE, s, re.DOTALL)]: [None], or group 1 of the
    leftmost match. *)
Fixpoint search (open close s : str) : option str :=
  match match_here open close s with
  | Some g => Some g
  | None =>
      match s with
      | [] => None
      | _ :: s' => search open close s'
      end
  end.

Definition AttributeError_group : exn :=
  Exn AttributeError (lit "'NoneType' object has no attribute 'group'").

(** [m.group(1)] where [m] is the value of [re.search]. *)
Definition group1 (m : option str) : result str :=
  match m with
  | Some g => Ok g
  | None => Raise AttributeError_group
  end.

End Re.

(* ================================================================= *)
(** ** Precision selection *)

Inductive dtype : Type := float32 | float16 | bfloat16.

(** What the two probes of [torch.cuda] answer on the machine at hand. *)
Record cuda : Type := Cuda {
  is_available : bool;
  get_device_capability : result (Z * Z)
}.

(** Printed output: one entry per [print] call. *)
Definition output := list str.

Definition space : char := 32%N.

Fixpoint join_args (args : list str) : str :=
  match args with
  | [] => []
  | [a] => a
  | a :: rest => a ++ space :: join_args rest
  end.

(** The text one [print] call writes for its arguments. *)
Definition print_text (args : list str) : str := join_args args ++ [nl].

(** [script.py], lines 57-61. *)
Module ScriptPy.

Definition torch_dtype (env : cuda) : result dtype :=
  rbind (get_device_capability env) (fun cap =>
  if (fst cap >=? 8)%Z then Ok bfloat16 else Ok float16).

End ScriptPy.

(** [test.py]. *)
Module TestPy.

Definition torch_dtype (env : cuda) : output * result dtype :=
  if is_available env then
    match get_device_capability env with
    | Ok cap =>
        if (fst cap >=? 8)%Z then ([], Ok bfloat16) else ([], Ok float16)
    | Raise e =>
        if is_Exception e then
          ([print_text [lit "Warning: Error checking CUDA capabilities: " ++ exn_str e];
            print_text [lit "Defaulting to float16"]],
           Ok float16)
        else ([], Raise e)
    end
  else
    ([print_text [lit "CUDA not available, using CPU with float32"]], Ok float32).

End TestPy.

(* ================================================================= *)
(** ** The evaluation steps of [script.py] (lines 166-181) *)

(** A computation that prints and may raise. *)
Definition io (A : Type) : Type := output -> output * result A.

Definition ret {A} (a : A) : io A := fun out => (out, Ok a).

Definition bind {A B} (m : io A) (k : A -> io B) : io B :=
  fun out =>
    match m out with
    | (out', Ok a) => k a out'
    | (out', Raise e) => (out', Raise e)
    end.

Definition lift {A} (r : result A) : io A := fun out => (out, r).

Definition print (args : list str) : io unit :=
  fun out => (out ++ [print_text args], Ok tt).

Declare Scope io_scope.
Delimit Scope io_scope with io.
Notation "x <- m ;; k" := (bind m (fun x => k))
  (at level 61, m at next level, right associativity) : io_scope.
Notation "m ;; k" := (bind m (fun _ => k))
  (at level 61, right associativity) : io_scope.

(** [random.randint(a, b)] returns an integer [r] with [a <= r <= b], both
    end points included. *)
Definition randint (a b r : Z) : Prop := (a <= r <= b)%Z.

Definition IndexError_range : exn :=
  Exn IndexError (lit "index out of range").

(** [seq[i]] for an integer index: a negative index counts from the end. *)
Definition getitem {A} (l : list A) (i : Z) : result A :=
  let n := Z.of_nat (List.length l) in
  let j := if (i <? 0)%Z then (i + n)%Z else i in
  if ((0 <=? j) && (j <? n))%Z then
    match nth_error l (Z.to_nat j) with
    | Some a => Ok a
    | None => Raise IndexError_range
    end
  else Raise IndexError_range.

(** [test_sample["messages"][:2]]: the turns handed to the chat template. *)
Definition prompt_turns (test_sample : conversation) : list turn :=
  firstn 2 (messages test_sample).

(** [re.search(pattern, text, re.DOTALL).group(1).strip()] *)
Definition extract (open close text : str) : result str :=
  rbind (Re.group1 (Re.search open close text)) (fun g => Ok (strip g)).

Definition extract_schema (text : str) : result str :=
  extract open_schema close_schema text.

Definition extract_query (text : str) : result str :=
  extract open_query close_query text.

Section Harness.

(** The generation collaborator: the tokenizer's chat template (with
    [tokenize=False, add_generation_prompt=True]) and the pipeline's
    [generated_text] for a prompt. *)
Variable apply_chat_template : list turn -> str.
Variable pipe : str -> str.

Open Scope io_scope.

(** Lines 168-181, for the drawn index [rand_idx]. *)
Definition evaluate (test : list conversation) (rand_idx : Z) : io unit :=
  test_sample <- lift (getitem test rand_idx) ;;
  let prompt := apply_chat_template (prompt_turns test_sample) in
  let generated_text := pipe prompt in
  m0 <- lift (getitem (messages test_sample) 0) ;;
  schema <- lift (extract_schema (content m0)) ;;
  print [lit "Context:
"; schema] ;;
  m0' <- lift (getitem (messages test_sample) 0) ;;
  query <- lift (extract_query (content m0')) ;;
  print [lit "Query:
"; query] ;;
  m1 <- lift (getitem (messages test_sample) 1) ;;
  print [lit "Original Answer:
" ++ content m1] ;;
  print [lit "Generated Answer:
" ++ strip (skipn (List.length prompt) generated_text)].

End Harness.

(* ================================================================= *)
(** ** Properties the specification states, as predicates *)

(** [s] holds exactly one block delimited by [open] and [close], with text
    [body]: each delimiter occurs once and [body] lies between them.  The
    delimiters are the ones the extraction looks for: the opening tag with
    the newline after it, the closing tag with the newline before it. *)
Definition one_block (open close s body : str) : Prop :=
  count open s = 1 /\ count close s = 1 /\
  exists a b, s = a ++ open ++ body ++ close ++ b.

(** The block property of the formatter's output as the specification words
    it, for every record. *)
Definition blocks_as_stated (s : sample) : Prop :=
  exists u,
    format_user_prompt (sql_prompt s) (sql_context s) = Ok u /\
    (exists body, one_block open_schema close_schema u body /\
                  strip body = strip (sql_context s)) /\
    (exists body, one_block open_query close_query u body /\
                  strip body = strip (sql_prompt s)).

(** The round trip as the specification words it: extraction from the user
    turn gives back the two fields exactly. *)
Definition round_trip_as_stated (s : sample) : Prop :=
  exists c m0,
    create_conversation s = Ok c /\
    getitem (messages c) 0 = Ok m0 /\
    extract_schema (content m0) = Ok (sql_context s) /\
    extract_query (content m0) = Ok (sql_prompt s).

(** None of the four delimiter tags occurs in [x]. *)
Definition delimiter_free (x : str) : bool :=
  negb (contains tag_schema x) && negb (contains tag_end_schema x) &&
  negb (contains tag_query x) && negb (contains tag_end_query x).

(** [rand_idx = randint(0, len(dataset["test"]))]: the indices the draw at
    line 167 can produce. *)
Definition rand_idx_draw (test : list conversation) (r : Z) : Prop :=
  randint 0 (Z.of_nat (List.length test)) r.

(** Concrete data for the examples. *)
Definition users_record : sample :=
  Sample (lit "List all users older than 30")
         (lit "CREATE TABLE users (id INT, age INT)")
         (lit "SELECT * FROM users WHERE age > 30;").

Definition users_conversation : conversation :=
  Conversation
    [Turn user (rendered (sql_prompt users_record) (sql_context users_record));
     Turn assistant (sql users_record)].

(* ================================================================= *)
(** ** Auxiliary definitions for reasoning about occurrences *)

(** [t] is one of the characters of [p]. *)
Definition mem (t : char) (p : str) : bool := existsb (N.eqb t) p.

(** Whether [p] matches at the head of [s ++ r] is settled by [s] alone:
    [Some b] when the answer is [b] for every continuation [r], [None] when
    [s] ends while [p] still agrees with it. *)
Fixpoint decided (p s : str) : option bool :=
  match p, s with
  | [], _ => Some true
  | _ :: _, [] => None
  | x :: p', y :: s' => if N.eqb x y then decided p' s' else Some false
  end.

(** The number of occurrences of [p] that start inside [s], when every
    position of [s] is settled by [s] alone. *)
Fixpoint count_decided (p s : str) : option nat :=
  match s with
  | [] => Some 0
  | _ :: s' =>
      match decided p s, count_decided p s' with
      | Some b, Some n => Some ((if b then 1 else 0) + n)
      | _, _ => None
      end
  end.

(** No occurrence of [p] in [c ++ t] starts inside [c]. *)
Definition no_match_in (p c t : str) : Prop :=
  forall a b, c = a ++ b -> b <> [] -> startswith p (b ++ t) = false.

Definition padded_record : sample :=
  Sample (lit "List all users older than 30 ")
         (lit "CREATE TABLE users (id INT, age INT)")
         (lit "SELECT * FROM users WHERE age > 30;").

Definition nested_record : sample :=
  Sample (lit "List all users")
         (lit "CREATE TABLE a (id INT)
</SCHEMA>

<SCHEMA>
CREATE TABLE b (id INT)")
         (lit "SELECT * FROM a;").

Definition plain_conversation : conversation :=
  Conversation [Turn user (lit "List all users"); Turn assistant (lit "SELECT 1")].

(** A machine whose capability probe fails, and one without accelerator. *)
Definition failing_probe : cuda :=
  Cuda true (Raise (Exn RuntimeError (lit "CUDA driver initialization failed"))).

Definition no_accelerator (cap : result (Z * Z)) : cuda := Cuda false cap.

(* ================================================================= *)
(** ** Further steps of [script.py] *)

(** [dataset.map(create_conversation, remove_columns=dataset.features,
    batched=False)] (line 41): the function is applied to the records in
    order, and the first exception ends the conversion. *)
Fixpoint dataset_map (f : sample -> result conversation) (ds : list sample)
  : result (list conversation) :=
  match ds with
  | [] => Ok []
  | s :: ds' =>
      rbind (f s) (fun c =>
      rbind (dataset_map f ds') (fun cs => Ok (c :: cs)))
  end.

(** Line 46: [print(dataset["train"][345]["messages"][1]["content"])]. *)
Definition print_train_sample (train : list conversation) : io unit :=
  (s <- lift (getitem train 345) ;;
   m <- lift (getitem (messages s) 1) ;;
   print [content m])%io.

Definition dtype_eqb (a b : dtype) : bool :=
  match a, b with
  | float32, float32 | float16, float16 | bfloat16, bfloat16 => true
  | _, _ => false
  end.

(** Lines 105-106: the two mixed-precision flags handed to [SFTConfig]. *)
Definition fp16 (torch_dtype : dtype) : bool :=
  if dtype_eqb torch_dtype float16 then true else false.

Definition bf16 (torch_dtype : dtype) : bool :=
  if dtype_eqb torch_dtype bfloat16 then true else false.

(** Line 181: [outputs[0]['generated_text'][len(prompt):].strip()]. *)
Definition generated_answer (prompt generated_text : str) : str :=
  strip (skipn (List.length prompt) generated_text).

(** Every character of [s] is whitespace. *)
Definition all_space (s : str) : bool := forallb isspace s.

(** [s] is empty or begins with a character that is not whitespace. *)
Definition head_clean (s : str) : bool :=
  match s with
  | [] => true
  | x :: _ => negb (isspace x)
  end.

(** The four lines of a complete report. *)
Definition report_lines (schema query answer generated : str) : output :=
  [print_text [lit "Context:
"; schema];
   print_text [lit "Query:
"; query];
   print_text [lit "Original Answer:
" ++ answer];
   print_text [lit "Generated Answer:
" ++ generated]].

(** The conversation the builder makes of a record. *)
Definition built (s : sample) : conversation :=
  Conversation [Turn user (rendered (sql_prompt s) (sql_context s));
                Turn assistant (sql s)].

(** Two records with one rendering: the context of the first holds the
    lines that separate the two blocks. *)
Definition split_early : sample :=
  Sample (lit "b
</SCHEMA>

<USER_QUERY>
x")
         (lit "a")
         (lit "SELECT 1").

Definition split_late : sample :=
  Sample (lit "x")
         (lit "a
</SCHEMA>

<USER_QUERY>
b")
         (lit "SELECT 1").

Definition ampere : cuda := Cuda true (Ok (8, 6)%Z).

(* ================================================================= *)
(** * Proofs *)

Lemma format_user_prompt_eq (q c : str) :
  format_user_prompt q c = Ok (rendered q c).
Proof.
  unfold format_user_prompt, Format.format, rendered.
  vm_compute. reflexivity.
Qed.

Lemma create_conversation_eq (s : sample) :
  create_conversation s =
  Ok (Conversation [Turn user (rendered (sql_prompt s) (sql_context s));
                    Turn assistant (sql s)]).
Proof.
  unfold create_conversation. rewrite format_user_prompt_eq. reflexivity.
Qed.

(* ----------------------------------------------------------------- *)
(** ** Prefixes and occurrences *)

Section Occurrences.

Implicit Types p c s r : str.

Lemma startswith_refl_app p r : startswith p (p ++ r) = true.
Proof.
  induction p as [|x p IH]; simpl; [reflexivity|].
  now rewrite N.eqb_refl.
Qed.

Lemma startswith_app_l p q s :
  startswith (p ++ q) s = true -> startswith p s = true.
Proof.
  revert s; induction p as [|x p IH]; intros s H; [reflexivity|].
  destruct s as [|y s]; simpl in *; [discriminate|].
  apply andb_true_iff in H as [Hxy H].
  rewrite Hxy; simpl; auto.
Qed.

(** A match at the head of [b ++ t] lies within [b], or uses up [b] and
    continues into [t]. *)
Lemma startswith_app_split p : forall b t,
  startswith p (b ++ t) = true ->
  startswith p b = true \/
  exists y, y <> [] /\ p = b ++ y /\ startswith y t = true.
Proof.
  induction p as [|x p IH]; intros b t H.
  - left; reflexivity.
  - destruct b as [|y b].
    + right; exists (x :: p); repeat split; [discriminate | exact H].
    + simpl in H. apply andb_true_iff in H as [Hxy H].
      apply N.eqb_eq in Hxy; subst y.
      destruct (IH _ _ H) as [Hl | (y0 & Hne & Hp & Hs)].
      * left; simpl; now rewrite N.eqb_refl.
      * right; exists y0; subst p; auto.
Qed.

Lemma contains_app_r p a b :
  startswith p b = true -> contains p (a ++ b) = true.
Proof.
  intros H; induction a as [|x a IH]; simpl.
  - destruct b; simpl in *; rewrite H; reflexivity.
  - rewrite IH; apply orb_true_r.
Qed.

Lemma mem_app_cons t a b : mem t (a ++ t :: b) = true.
Proof.
  unfold mem; rewrite existsb_app; simpl.
  rewrite N.eqb_refl; simpl; apply orb_true_r.
Qed.

Lemma startswith_head y t r :
  y <> [] -> startswith y (t :: r) = true -> exists y', y = t :: y'.
Proof.
  destruct y as [|y0 y']; [congruence|]; simpl; intros _ H.
  apply andb_true_iff in H as [H _]; apply N.eqb_eq in H; subst; eauto.
Qed.

(** A pattern that does not occur in [c] and does not use the character
    [t] matches at no suffix of [c] followed by [t]. *)
Lemma startswith_suffix_false p c t r :
  contains p c = false -> mem t p = false ->
  forall a b, c = a ++ b -> startswith p (b ++ t :: r) = false.
Proof.
  intros Hc Ht a b ->.
  destruct (startswith p (b ++ t :: r)) eqn:E; [|reflexivity].
  apply startswith_app_split in E as [E | (y & Hne & -> & Hy)].
  - rewrite (@contains_app_r p a b E) in Hc; discriminate.
  - destruct (@startswith_head y t r Hne Hy) as [y' ->].
    rewrite mem_app_cons in Ht; discriminate.
Qed.

(** A pattern that does not occur in [c] and uses [t] as its first
    character at most has no occurrence starting inside [c] when [t]
    follows [c]. *)
Lemma no_match_in_tail p c t r :
  contains p c = false -> mem t (tl p) = false ->
  no_match_in p c (t :: r).
Proof.
  intros Hc Ht a b -> Hb.
  destruct (startswith p (b ++ t :: r)) eqn:E; [|reflexivity].
  apply startswith_app_split in E as [E | (y & Hne & -> & Hy)].
  - rewrite (@contains_app_r p a b E) in Hc; discriminate.
  - destruct (@startswith_head y t r Hne Hy) as [y' ->].
    destruct b as [|b0 b]; [congruence|]; simpl in Ht.
    rewrite mem_app_cons in Ht; discriminate.
Qed.

(** The same for a pattern [tag ++ q] whose part [tag] neither occurs in
    [c] nor uses [t]. *)
Lemma no_match_in_tag tag q c t r :
  contains tag c = false -> mem t tag = false ->
  no_match_in (tag ++ q) c (t :: r).
Proof.
  intros Hc Ht a b Hab _.
  destruct (startswith (tag ++ q) (b ++ t :: r)) eqn:E; [|reflexivity].
  apply startswith_app_l in E.
  rewrite (@startswith_suffix_false tag c t r Hc Ht a b Hab) in E; discriminate.
Qed.

Lemma no_match_in_cons p x c t :
  startswith p (x :: c ++ t) = false ->
  no_match_in p c t -> no_match_in p (x :: c) t.
Proof.
  intros Hx Hc a b Hab Hb.
  destruct a as [|a0 a]; simpl in Hab.
  - subst b; exact Hx.
  - injection Hab as _ Hab; eapply Hc; eauto.
Qed.

Lemma no_match_in_inv p x c t :
  no_match_in p (x :: c) t ->
  startswith p (x :: c ++ t) = false /\ no_match_in p c t.
Proof.
  intros H; split.
  - apply (H [] (x :: c)); [reflexivity | discriminate].
  - intros a b -> Hb; apply (H (x :: a) b); [reflexivity | exact Hb].
Qed.

Lemma count_skip p c t :
  no_match_in p c t -> count p (c ++ t) = count p t.
Proof.
  induction c as [|x c IH]; intros H; [reflexivity|].
  apply no_match_in_inv in H as [Hx Hc].
  change (count p ((x :: c) ++ t))
    with ((if startswith p (x :: c ++ t) then 1 else 0) + count p (c ++ t)).
  rewrite Hx, IH; auto.
Qed.

Lemma count_suffix_le p a r : count p r <= count p (a ++ r).
Proof.
  induction a as [|x a IH]; [apply le_n|].
  change (count p ((x :: a) ++ r))
    with ((if startswith p (x :: a ++ r) then 1 else 0) + count p (a ++ r)).
  lia.
Qed.

Lemma decided_app p : forall s b r,
  decided p s = Some b -> startswith p (s ++ r) = b.
Proof.
  induction p as [|x p IH]; intros s b r H; simpl in H.
  - now injection H as <-.
  - destruct s as [|y s]; [discriminate|]; simpl.
    destruct (N.eqb x y); simpl; [eauto | now injection H as <-].
Qed.

Lemma count_decided_app p a : forall n r,
  count_decided p a = Some n -> count p (a ++ r) = n + count p r.
Proof.
  induction a as [|x a IH]; intros n r H.
  - injection H as <-; reflexivity.
  - cbn [count_decided] in H.
    destruct (decided p (x :: a)) as [b|] eqn:Hd; [|discriminate].
    destruct (count_decided p a) as [m|]; [|discriminate].
    injection H as <-.
    change (count p ((x :: a) ++ r))
      with ((if startswith p ((x :: a) ++ r) then 1 else 0)
            + count p (a ++ r)).
    rewrite (@decided_app p (x :: a) b r Hd), (IH m r eq_refl); lia.
Qed.

End Occurrences.

(* ----------------------------------------------------------------- *)
(** ** The delimiter search *)

Section Search.

Variables open close : str.

Lemma literal_none p : forall s,
  startswith p s = false -> Re.literal p s = None.
Proof.
  induction p as [|x p IH]; intros s H; [discriminate|].
  destruct s as [|y s]; [reflexivity|]; simpl in *.
  destruct (N.eqb x y); simpl in H; [auto | reflexivity].
Qed.

Lemma literal_app p r : Re.literal p (p ++ r) = Some r.
Proof.
  induction p as [|x p IH]; [reflexivity|]; simpl.
  now rewrite N.eqb_refl.
Qed.

Lemma search_unfold s :
  Re.search open close s =
  match Re.match_here open close s with
  | Some g => Some g
  | None =>
      match s with
      | [] => None
      | _ :: s' => Re.search open close s'
      end
  end.
Proof. destruct s; reflexivity. Qed.

Lemma search_cons_miss x s :
  startswith open (x :: s) = false ->
  Re.search open close (x :: s) = Re.search open close s.
Proof.
  intros H; rewrite search_unfold; unfold Re.match_here.
  now rewrite (literal_none _ _ H).
Qed.

(** A fixed text in which [open] occurs nowhere is skipped. *)
Lemma search_skip_decided a : forall r,
  count_decided open a = Some 0 ->
  Re.search open close (a ++ r) = Re.search open close r.
Proof.
  induction a as [|x a IH]; intros r H; [reflexivity|].
  cbn [count_decided] in H.
  destruct (decided open (x :: a)) as [b|] eqn:Hd; [|discriminate].
  destruct (count_decided open a) as [m|]; [|discriminate].
  injection H as H.
  destruct b; [discriminate|]; simpl in H; subst m.
  change ((x :: a) ++ r) with (x :: a ++ r).
  rewrite search_cons_miss; [auto|].
  exact (@decided_app open (x :: a) false r Hd).
Qed.

(** So is a text in which no occurrence of [open] starts. *)
Lemma search_skip c t :
  no_match_in open c t ->
  Re.search open close (c ++ t) = Re.search open close t.
Proof.
  induction c as [|x c IH]; intros H; [reflexivity|].
  apply no_match_in_inv in H as [Hx Hc].
  change ((x :: c) ++ t) with (x :: c ++ t).
  rewrite search_cons_miss; auto.
Qed.

Lemma lazy_until_unfold s :
  Re.lazy_until close s =
  if startswith close s then Some []
  else match s with
       | [] => None
       | c :: s' => option_map (cons c) (Re.lazy_until close s')
       end.
Proof. destruct s; reflexivity. Qed.

(** The lazy group stops at the first occurrence of [close]. *)
Lemma lazy_until_first c r :
  no_match_in close c (close ++ r) ->
  Re.lazy_until close (c ++ close ++ r) = Some c.
Proof.
  induction c as [|x c IH]; intros H.
  - simpl app. rewrite lazy_until_unfold, startswith_refl_app; reflexivity.
  - apply no_match_in_inv in H as [Hx Hc].
    change ((x :: c) ++ close ++ r) with (x :: c ++ close ++ r).
    rewrite lazy_until_unfold, Hx, IH; auto.
Qed.

Lemma search_hit r g :
  Re.lazy_until close r = Some g ->
  Re.search open close (open ++ r) = Some g.
Proof.
  intros H; rewrite search_unfold; unfold Re.match_here.
  now rewrite literal_app, H.
Qed.

End Search.

(* ----------------------------------------------------------------- *)
(** ** Extraction from a rendered prompt *)

Section Occurrences_after.

Lemma no_match_in_after tag t0 c t r :
  contains tag c = false -> mem t tag = false ->
  forall x, no_match_in (t0 :: tag) (x :: c) (t :: r).
Proof.
  intros Hc Ht x a b Hab Hb.
  destruct b as [|y b]; [congruence|].
  change (startswith (t0 :: tag) ((y :: b) ++ t :: r))
    with (N.eqb t0 y && startswith tag (b ++ t :: r)).
  assert (Hsuf : exists a', c = a' ++ b).
  { destruct a as [|a0 a]; simpl in Hab; injection Hab as _ Hab.
    - exists []; auto.
    - exists (a ++ [y]); rewrite <- app_assoc; auto. }
  destruct Hsuf as [a' Hsuf].
  rewrite (@startswith_suffix_false tag c t r Hc Ht a' b Hsuf).
  apply andb_false_r.
Qed.

Lemma count_segments p a1 n1 x a2 n2 y a3 s :
  s = a1 ++ x ++ a2 ++ y ++ a3 ->
  count_decided p a1 = Some n1 ->
  no_match_in p x (a2 ++ y ++ a3) ->
  count_decided p a2 = Some n2 ->
  no_match_in p y a3 ->
  count p s = n1 + n2 + count p a3.
Proof.
  intros -> H1 Hx H2 Hy.
  rewrite (@count_decided_app p a1 n1 _ H1), (@count_skip p x _ Hx).
  rewrite (@count_decided_app p a2 n2 _ H2), (@count_skip p y _ Hy); lia.
Qed.

End Occurrences_after.

Lemma search_schema_rendered (q c : str) :
  contains close_schema c = false ->
  Re.search open_schema close_schema (rendered q c) = Some c.
Proof.
  intros Hc.
  change (rendered q c)
    with ((preamble ++ [nl; nl]) ++ open_schema ++ c ++ close_schema
          ++ ([nl; nl] ++ open_query ++ q ++ close_query ++ [nl])).
  rewrite search_skip_decided by (vm_compute; reflexivity).
  apply search_hit, lazy_until_first.
  exact (@no_match_in_tail close_schema c nl _ Hc eq_refl).
Qed.

Lemma search_query_rendered (q c : str) :
  contains tag_query c = false ->
  contains close_query q = false ->
  Re.search open_query close_query (rendered q c) = Some q.
Proof.
  intros Hc Hq.
  change (rendered q c)
    with ((preamble ++ [nl; nl] ++ open_schema) ++ c
          ++ (close_schema ++ [nl; nl]) ++ open_query ++ q ++ close_query
          ++ [nl]).
  rewrite search_skip_decided by (vm_compute; reflexivity).
  rewrite search_skip.
  2: exact (@no_match_in_tag tag_query [nl] c nl _ Hc eq_refl).
  rewrite search_skip_decided by (vm_compute; reflexivity).
  apply search_hit, lazy_until_first.
  exact (@no_match_in_tail close_query q nl _ Hq eq_refl).
Qed.

Lemma delimiter_free_inv (x : str) :
  delimiter_free x = true ->
  contains tag_schema x = false /\ contains tag_end_schema x = false /\
  contains tag_query x = false /\ contains tag_end_query x = false.
Proof.
  unfold delimiter_free; intros H.
  repeat (apply andb_true_iff in H as [H ?]).
  repeat split; apply negb_true_iff; assumption.
Qed.

Section Counts.

Variables q c : str.
Hypothesis Hc : delimiter_free c = true.
Hypothesis Hq : delimiter_free q = true.

Lemma count_open_schema : count open_schema (rendered q c) = 1.
Proof.
  destruct (delimiter_free_inv _ Hc) as (Hc1 & _).
  destruct (delimiter_free_inv _ Hq) as (Hq1 & _).
  rewrite (@count_segments open_schema
             (preamble ++ [nl; nl] ++ open_schema) 1 c
             (close_schema ++ [nl; nl] ++ open_query) 0 q
             (close_query ++ [nl]) (rendered q c) eq_refl).
  - vm_compute; reflexivity.
  - vm_compute; reflexivity.
  - exact (@no_match_in_tag tag_schema [nl] c nl _ Hc1 eq_refl).
  - vm_compute; reflexivity.
  - exact (@no_match_in_tag tag_schema [nl] q nl _ Hq1 eq_refl).
Qed.

Lemma count_open_query : count open_query (rendered q c) = 1.
Proof.
  destruct (delimiter_free_inv _ Hc) as (_ & _ & Hc3 & _).
  destruct (delimiter_free_inv _ Hq) as (_ & _ & Hq3 & _).
  rewrite (@count_segments open_query
             (preamble ++ [nl; nl] ++ open_schema) 0 c
             (close_schema ++ [nl; nl] ++ open_query) 1 q
             (close_query ++ [nl]) (rendered q c) eq_refl).
  - vm_compute; reflexivity.
  - vm_compute; reflexivity.
  - exact (@no_match_in_tag tag_query [nl] c nl _ Hc3 eq_refl).
  - vm_compute; reflexivity.
  - exact (@no_match_in_tag tag_query [nl] q nl _ Hq3 eq_refl).
Qed.

Lemma count_close_schema : count close_schema (rendered q c) = 1.
Proof.
  destruct (delimiter_free_inv _ Hc) as (_ & Hc2 & _).
  destruct (delimiter_free_inv _ Hq) as (_ & Hq2 & _).
  rewrite (@count_segments close_schema
             (preamble ++ [nl; nl] ++ tag_schema) 0 (nl :: c)
             (close_schema ++ [nl; nl] ++ tag_query) 1 (nl :: q)
             (close_query ++ [nl]) (rendered q c) eq_refl).
  - vm_compute; reflexivity.
  - vm_compute; reflexivity.
  - exact (@no_match_in_after tag_end_schema nl c nl _ Hc2 eq_refl nl).
  - vm_compute; reflexivity.
  - exact (@no_match_in_after tag_end_schema nl q nl _ Hq2 eq_refl nl).
Qed.

Lemma count_close_query : count close_query (rendered q c) = 1.
Proof.
  destruct (delimiter_free_inv _ Hc) as (_ & _ & _ & Hc4).
  destruct (delimiter_free_inv _ Hq) as (_ & _ & _ & Hq4).
  rewrite (@count_segments close_query
             (preamble ++ [nl; nl] ++ tag_schema) 0 (nl :: c)
             (close_schema ++ [nl; nl] ++ tag_query) 0 (nl :: q)
             (close_query ++ [nl]) (rendered q c) eq_refl).
  - vm_compute; reflexivity.
  - vm_compute; reflexivity.
  - exact (@no_match_in_after tag_end_query nl c nl _ Hc4 eq_refl nl).
  - vm_compute; reflexivity.
  - exact (@no_match_in_after tag_end_query nl q nl _ Hq4 eq_refl nl).
Qed.

Lemma schema_block : one_block open_schema close_schema (rendered q c) c.
Proof.
  split; [exact count_open_schema | split; [exact count_close_schema|]].
  exists (preamble ++ [nl; nl]),
         ([nl; nl] ++ open_query ++ q ++ close_query ++ [nl]).
  reflexivity.
Qed.

Lemma query_block : one_block open_query close_query (rendered q c) q.
Proof.
  split; [exact count_open_query | split; [exact count_close_query|]].
  exists (preamble ++ [nl; nl] ++ open_schema ++ c ++ close_schema
          ++ [nl; nl]), [nl].
  repeat (rewrite <- app_assoc; simpl app); reflexivity.
Qed.

End Counts.

(* ================================================================= *)
(** * The conversation builder and the formatter *)

(** C9: [create_conversation] returns, for every record, a conversation of
    exactly two turns: a user turn whose content is the formatter's output
    for the record's [sql_prompt] and [sql_context] (the formatter never
    raises), then an assistant turn whose content is the record's [sql]
    unchanged.  It is a function of the record alone. *)
Theorem create_conversation_total (s : sample) :
  exists u c,
    format_user_prompt (sql_prompt s) (sql_context s) = Ok u /\
    u = rendered (sql_prompt s) (sql_context s) /\
    create_conversation s = Ok c /\
    List.length (messages c) = 2 /\
    messages c = [Turn user u; Turn assistant (sql s)].
Proof.
  exists (rendered (sql_prompt s) (sql_context s)).
  eexists; split; [apply format_user_prompt_eq|].
  split; [reflexivity|].
  split; [apply create_conversation_eq|].
  split; reflexivity.
Qed.

(** The end-to-end scenario of the specification. *)
Example users_record_conversation :
  create_conversation users_record = Ok users_conversation.
Proof. apply create_conversation_eq. Qed.

(** C10: for every question and context the formatter's output begins with
    the fixed preamble; the preamble contains the substrings [<USER_QUERY>]
    and [<SCHEMA>], so each of them occurs at least twice in the output; the
    preamble contains neither tag followed by a newline, and the delimiter
    search, whose opening pattern is the tag followed by a newline, passes
    over the preamble. *)
Theorem preamble_tags (q c : str) :
  exists rest,
    format_user_prompt q c = Ok (preamble ++ rest) /\
    contains tag_query preamble = true /\
    contains tag_schema preamble = true /\
    2 <= count tag_schema (preamble ++ rest) /\
    2 <= count tag_query (preamble ++ rest) /\
    open_schema = tag_schema ++ [nl] /\
    open_query = tag_query ++ [nl] /\
    contains open_schema preamble = false /\
    contains open_query preamble = false /\
    (forall close,
        Re.search open_schema close (preamble ++ rest) =
        Re.search open_schema close rest) /\
    (forall close,
        Re.search open_query close (preamble ++ rest) =
        Re.search open_query close rest).
Proof.
  exists ([nl; nl] ++ open_schema ++ c ++ close_schema
          ++ [nl; nl] ++ open_query ++ q ++ close_query ++ [nl]).
  split; [apply format_user_prompt_eq|].
  do 2 (split; [vm_compute; reflexivity|]).
  split.
  { change (preamble ++ [nl; nl] ++ open_schema ++ c ++ close_schema
            ++ [nl; nl] ++ open_query ++ q ++ close_query ++ [nl])
      with ((preamble ++ [nl; nl] ++ open_schema)
            ++ (c ++ close_schema ++ [nl; nl] ++ open_query ++ q
                ++ close_query ++ [nl])).
    rewrite (@count_decided_app tag_schema
               (preamble ++ [nl; nl] ++ open_schema) 2 _ eq_refl); lia. }
  split.
  { change (preamble ++ [nl; nl] ++ open_schema ++ c ++ close_schema
            ++ [nl; nl] ++ open_query ++ q ++ close_query ++ [nl])
      with ((preamble ++ [nl; nl] ++ open_schema)
            ++ (c ++ (close_schema ++ [nl; nl] ++ open_query)
                ++ (q ++ close_query ++ [nl]))).
    rewrite (@count_decided_app tag_query
               (preamble ++ [nl; nl] ++ open_schema) 1 _ eq_refl).
    pose proof (count_suffix_le tag_query c
                  ((close_schema ++ [nl; nl] ++ open_query)
                   ++ (q ++ close_query ++ [nl]))) as Hle.
    rewrite (@count_decided_app tag_query
               (close_schema ++ [nl; nl] ++ open_query) 1 _ eq_refl) in Hle.
    lia. }
  do 4 (split; [vm_compute; reflexivity|]).
  split; intros close; apply search_skip_decided; vm_compute; reflexivity.
Qed.

(** C5, as stated, fails: a context that itself holds delimiter lines gives
    an output with two opening [<SCHEMA>] delimiters. *)
Lemma blocks_as_stated_fails : ~ blocks_as_stated nested_record.
Proof.
  intros (u & Hu & (body & (Hopen & _) & _) & _).
  rewrite format_user_prompt_eq in Hu; injection Hu as <-.
  vm_compute in Hopen; discriminate.
Qed.

(** C5, amended: for every record whose context and question contain none
    of the four delimiter tags, the formatter's output holds exactly one
    schema block, whose text is the context, and exactly one query block,
    whose text is the question. *)
Theorem formatter_blocks (s : sample) :
  delimiter_free (sql_context s) = true ->
  delimiter_free (sql_prompt s) = true ->
  exists u,
    format_user_prompt (sql_prompt s) (sql_context s) = Ok u /\
    one_block open_schema close_schema u (sql_context s) /\
    one_block open_query close_query u (sql_prompt s).
Proof.
  intros Hc Hq; eexists; split; [apply format_user_prompt_eq|].
  split; [apply schema_block | apply query_block]; assumption.
Qed.

Lemma formatter_blocks_witness :
  exists u,
    format_user_prompt (sql_prompt users_record) (sql_context users_record)
    = Ok u /\
    one_block open_schema close_schema u (sql_context users_record) /\
    one_block open_query close_query u (sql_prompt users_record).
Proof.
  apply (formatter_blocks users_record); reflexivity.
Defined.

(* ================================================================= *)
(** * Extraction by the evaluation steps *)

Lemma extract_schema_rendered (q c : str) :
  contains close_schema c = false ->
  extract_schema (rendered q c) = Ok (strip c).
Proof.
  intros Hc; unfold extract_schema, extract.
  now rewrite search_schema_rendered.
Qed.

Lemma extract_query_rendered (q c : str) :
  contains tag_query c = false ->
  contains close_query q = false ->
  extract_query (rendered q c) = Ok (strip q).
Proof.
  intros Hc Hq; unfold extract_query, extract.
  now rewrite search_query_rendered.
Qed.

(** C4, as stated, fails: a question that ends in a blank comes back
    without it. *)
Lemma round_trip_as_stated_fails : ~ round_trip_as_stated padded_record.
Proof.
  intros (c & m0 & Hc & Hm & _ & Hq).
  rewrite create_conversation_eq in Hc; injection Hc as <-.
  vm_compute in Hm; injection Hm as <-.
  vm_compute in Hq; discriminate.
Qed.

(** Nor is trimming the only loss: a context that holds a closing delimiter
    line is cut at it. *)
Lemma round_trip_cut_at_delimiter :
  extract_schema (rendered (sql_prompt nested_record)
                           (sql_context nested_record))
  = Ok (lit "CREATE TABLE a (id INT)").
Proof. vm_compute; reflexivity. Qed.

(** C4, amended: for every record whose context contains neither a newline
    followed by [</SCHEMA>] nor [<USER_QUERY>], and whose question contains
    no newline followed by [</USER_QUERY>], extraction from the user turn of
    the built conversation gives the context and the question with leading
    and trailing whitespace removed. *)
Theorem round_trip_trimmed (s : sample) :
  contains close_schema (sql_context s) = false ->
  contains tag_query (sql_context s) = false ->
  contains close_query (sql_prompt s) = false ->
  exists c m0,
    create_conversation s = Ok c /\
    getitem (messages c) 0 = Ok m0 /\
    turn_role m0 = user /\
    extract_schema (content m0) = Ok (strip (sql_context s)) /\
    extract_query (content m0) = Ok (strip (sql_prompt s)).
Proof.
  intros H1 H2 H3.
  do 2 eexists; split; [apply create_conversation_eq|].
  split; [reflexivity|]; split; [reflexivity|]; simpl content.
  split; [apply extract_schema_rendered | apply extract_query_rendered];
    assumption.
Qed.

Lemma round_trip_trimmed_witness :
  exists c m0,
    create_conversation padded_record = Ok c /\
    getitem (messages c) 0 = Ok m0 /\
    turn_role m0 = user /\
    extract_schema (content m0) = Ok (strip (sql_context padded_record)) /\
    extract_query (content m0) = Ok (strip (sql_prompt padded_record)).
Proof.
  apply (round_trip_trimmed padded_record); reflexivity.
Defined.

(** When the two fields carry no surrounding whitespace the round trip is
    exact. *)
Corollary round_trip_exact (s : sample) :
  contains close_schema (sql_context s) = false ->
  contains tag_query (sql_context s) = false ->
  contains close_query (sql_prompt s) = false ->
  strip (sql_context s) = sql_context s ->
  strip (sql_prompt s) = sql_prompt s ->
  round_trip_as_stated s.
Proof.
  intros H1 H2 H3 Hc Hq.
  do 2 eexists; split; [apply create_conversation_eq|].
  split; [reflexivity|]; simpl content.
  rewrite (@extract_schema_rendered (sql_prompt s) _ H1).
  rewrite (@extract_query_rendered _ _ H2 H3).
  rewrite Hc, Hq; auto.
Qed.

Lemma round_trip_exact_witness : round_trip_as_stated users_record.
Proof.
  apply (round_trip_exact users_record); reflexivity.
Defined.

(* ================================================================= *)
(** * The evaluation steps *)

(** Every conversation the builder makes has two turns, so the slice
    [messages[:2]] keeps both, the assistant turn with the reference answer
    included. *)
Lemma prompt_turns_built (s : sample) (c : conversation) :
  create_conversation s = Ok c ->
  prompt_turns c = messages c /\
  In (Turn assistant (sql s)) (prompt_turns c).
Proof.
  rewrite create_conversation_eq; intros H; injection H as <-.
  split; [reflexivity | right; left; reflexivity].
Qed.

Lemma prompt_turns_built_witness :
  prompt_turns users_conversation = messages users_conversation /\
  In (Turn assistant (sql users_record)) (prompt_turns users_conversation).
Proof.
  apply (@prompt_turns_built users_record users_conversation); reflexivity.
Defined.

(** C1: the code at the record of the end-to-end scenario.  The turns
    handed to the chat template are both turns of the conversation, and the
    prompt sent to generation is rendered from the user turn and the
    assistant turn that carries the reference SQL. *)
Theorem prompt_includes_assistant_turn :
  forall (apply_chat_template : list turn -> str) (pipe : str -> str),
    let turns :=
      [Turn user (rendered (sql_prompt users_record)
                           (sql_context users_record));
       Turn assistant (sql users_record)] in
    let prompt := apply_chat_template turns in
    prompt_turns users_conversation = turns /\
    evaluate apply_chat_template pipe [users_conversation] 0 [] =
    ([print_text [lit "Context:
"; sql_context users_record];
      print_text [lit "Query:
"; sql_prompt users_record];
      print_text [lit "Original Answer:
" ++ sql users_record];
      print_text [lit "Generated Answer:
" ++ strip (skipn (List.length prompt) (pipe prompt))]],
     Ok tt).
Proof.
  intros act pipe turns prompt; split; [reflexivity|].
  vm_compute; reflexivity.
Qed.

(** The draw of line 167 can be the length of the test subset, and the
    lookup at that index raises. *)
Lemma rand_idx_can_be_length (test : list conversation) :
  rand_idx_draw test (Z.of_nat (List.length test)) /\
  getitem test (Z.of_nat (List.length test)) = Raise IndexError_range.
Proof.
  split; [unfold rand_idx_draw, randint; lia|].
  unfold getitem.
  destruct (Z.of_nat (List.length test) <? 0)%Z eqn:E;
    [apply Z.ltb_lt in E; lia|].
  rewrite Z.ltb_irrefl, andb_false_r; reflexivity.
Qed.

(** Below the length the lookup succeeds. *)
Lemma getitem_in_range (A : Type) (l : list A) (i : Z) :
  (0 <= i < Z.of_nat (List.length l))%Z -> exists a, getitem l i = Ok a.
Proof.
  intros H; unfold getitem.
  destruct (i <? 0)%Z eqn:E; [apply Z.ltb_lt in E; lia|].
  replace ((0 <=? i) && (i <? Z.of_nat (List.length l)))%Z with true
    by (symmetry; apply andb_true_iff; split; [apply Z.leb_le | apply Z.ltb_lt];
        lia).
  destruct (nth_error l (Z.to_nat i)) eqn:En; [eauto|].
  apply nth_error_None in En; lia.
Qed.

Lemma getitem_in_range_witness :
  exists a, getitem [users_conversation] 0 = Ok a.
Proof.
  apply (@getitem_in_range conversation [users_conversation] 0%Z); simpl; lia.
Defined.

(** C2: the code on a test subset of one record.  The index 1 is a possible
    draw of [randint(0, 1)], it is outside [0, 1), and the evaluation stops
    with an [IndexError] before anything is printed. *)
Theorem rand_idx_out_of_bounds :
  forall (apply_chat_template : list turn -> str) (pipe : str -> str),
    rand_idx_draw [users_conversation] 1 /\
    ~ (0 <= 1 < Z.of_nat (List.length [users_conversation]))%Z /\
    evaluate apply_chat_template pipe [users_conversation] 1 [] =
    ([], Raise IndexError_range).
Proof.
  intros act pipe; split; [unfold rand_idx_draw, randint; simpl; lia|].
  split; [simpl; lia | reflexivity].
Qed.

(** C8: when the search for the schema delimiters or for the query
    delimiters in the user turn finds no match, the evaluation ends with
    the [AttributeError] of [None.group]; nothing is printed for a field
    whose delimiters were not found: no line at all when the schema search
    fails, only the context line when the query search fails. *)
Theorem extraction_failure_is_fatal
    (apply_chat_template : list turn -> str) (pipe : str -> str)
    (test : list conversation) (rand_idx : Z)
    (test_sample : conversation) (m0 : turn) (out : output) :
  getitem test rand_idx = Ok test_sample ->
  getitem (messages test_sample) 0 = Ok m0 ->
  Re.search open_schema close_schema (content m0) = None \/
  Re.search open_query close_query (content m0) = None ->
  exists out',
    evaluate apply_chat_template pipe test rand_idx out
    = (out', Raise Re.AttributeError_group) /\
    (Re.search open_schema close_schema (content m0) = None -> out' = out) /\
    (forall g, Re.search open_schema close_schema (content m0) = Some g ->
               out' = out ++ [print_text [lit "Context:
"; strip g]]).
Proof.
  intros Hs Hm Hnone.
  unfold evaluate, bind, lift, print, extract_schema, extract_query, extract.
  rewrite Hs, Hm.
  destruct (Re.search open_schema close_schema (content m0)) as [g|] eqn:Eg.
  - destruct Hnone as [Hnone | Hnone]; [discriminate|].
    rewrite Hnone; simpl.
    eexists; split; [reflexivity|].
    split; [discriminate|].
    intros g' Hg'; injection Hg' as <-; reflexivity.
  - simpl; exists out; split; [reflexivity|].
    split; [reflexivity | discriminate].
Qed.

Lemma extraction_failure_is_fatal_witness :
  exists out',
    evaluate (fun _ => []) (fun p => p) [plain_conversation] 0 []
    = (out', Raise Re.AttributeError_group) /\
    (Re.search open_schema close_schema (lit "List all users") = None ->
     out' = []) /\
    (forall g,
        Re.search open_schema close_schema (lit "List all users") = Some g ->
        out' = [] ++ [print_text [lit "Context:
"; strip g]]).
Proof.
  apply (@extraction_failure_is_fatal (fun _ => []) (fun p => p)
           [plain_conversation] 0 plain_conversation
           (Turn user (lit "List all users")) []);
    [reflexivity | reflexivity | left; reflexivity].
Defined.

(* ================================================================= *)
(** * Precision selection *)

(** X16: [test.py]: the selection ends with a precision whenever the probe
    answers or raises an [Exception]; on such an exception it prints the
    warning and gives [float16]. *)
Lemma test_py_never_raises (env : cuda) :
  (forall e, get_device_capability env = Raise e -> is_Exception e = true) ->
  exists out d, TestPy.torch_dtype env = (out, Ok d) /\
    (forall e, is_available env = true ->
               get_device_capability env = Raise e ->
               d = float16 /\
               out = [print_text [lit "Warning: Error checking CUDA capabilities: "
                                  ++ exn_str e];
                      print_text [lit "Defaulting to float16"]]).
Proof.
  intros H; unfold TestPy.torch_dtype.
  destruct (is_available env).
  - destruct (get_device_capability env) as [cap|e] eqn:E.
    + destruct (fst cap >=? 8)%Z; do 2 eexists;
        (split; [reflexivity | intros; discriminate]).
    + rewrite (H e eq_refl); do 2 eexists; split; [reflexivity|].
      intros e' _ He'; injection He' as <-; auto.
  - do 2 eexists; split; [reflexivity | intros; discriminate].
Qed.

Lemma test_py_never_raises_witness :
  exists out d, TestPy.torch_dtype failing_probe = (out, Ok d) /\
    (forall e, is_available failing_probe = true ->
               get_device_capability failing_probe = Raise e ->
               d = float16 /\
               out = [print_text [lit "Warning: Error checking CUDA capabilities: "
                                  ++ exn_str e];
                      print_text [lit "Defaulting to float16"]]).
Proof.
  apply (test_py_never_raises failing_probe).
  intros e H; injection H as <-; reflexivity.
Defined.

(** [test.py]: the precision by probe outcome. *)
Lemma test_py_table (avail : bool) (major minor : Z) :
  snd (TestPy.torch_dtype (Cuda avail (Ok (major, minor)))) =
  Ok (if avail then if (major <? 8)%Z then float16 else bfloat16
      else float32).
Proof.
  unfold TestPy.torch_dtype; simpl.
  destruct avail; [|reflexivity].
  rewrite Z.geb_leb, Z.ltb_antisym.
  destruct (8 <=? major)%Z; reflexivity.
Qed.

(** [script.py]: the two outcomes with an accelerator. *)
Lemma script_py_table (avail : bool) (major minor : Z) :
  ScriptPy.torch_dtype (Cuda avail (Ok (major, minor))) =
  Ok (if (major <? 8)%Z then float16 else bfloat16).
Proof.
  unfold ScriptPy.torch_dtype; simpl.
  rewrite Z.geb_leb, Z.ltb_antisym.
  destruct (8 <=? major)%Z; reflexivity.
Qed.

(** C3: the code at a probe that raises.  The selection of [script.py]
    lets the exception out; the one of [test.py] prints the warning and
    gives [float16]. *)
Theorem script_py_probe_error_propagates :
  ScriptPy.torch_dtype failing_probe =
  Raise (Exn RuntimeError (lit "CUDA driver initialization failed")) /\
  TestPy.torch_dtype failing_probe =
  ([print_text [lit "Warning: Error checking CUDA capabilities: CUDA driver initialization failed"];
    print_text [lit "Defaulting to float16"]],
   Ok float16).
Proof. split; vm_compute; reflexivity. Qed.

(** C7: the code on a machine without accelerator.  Whatever the capability
    probe does there, the selection of [script.py] does not give [float32]
    (it has no such branch); the one of [test.py] gives [float32]. *)
Theorem script_py_never_float32 :
  forall cap : result (Z * Z),
    ScriptPy.torch_dtype (no_accelerator cap) <> Ok float32 /\
    TestPy.torch_dtype (no_accelerator cap) =
    ([print_text [lit "CUDA not available, using CPU with float32"]],
     Ok float32).
Proof.
  intros cap; split; [|reflexivity].
  unfold ScriptPy.torch_dtype, no_accelerator; simpl.
  destruct cap as [[major minor]|e]; simpl; [|discriminate].
  destruct (major >=? 8)%Z; discriminate.
Qed.

(* ================================================================= *)
(** * Trimming *)

Lemma lstrip_split (s : str) :
  exists a, s = a ++ lstrip s /\ all_space a = true.
Proof.
  induction s as [|x s (a & Hs & Ha)]; [exists []; auto|].
  simpl; destruct (isspace x) eqn:Hx.
  - exists (x :: a); simpl; rewrite Hx, Ha; split; [f_equal; exact Hs | auto].
  - exists []; auto.
Qed.

Lemma lstrip_head_clean (s : str) : head_clean (lstrip s) = true.
Proof.
  induction s as [|x s IH]; [reflexivity|].
  simpl; destruct (isspace x) eqn:Hx; [exact IH|].
  simpl; now rewrite Hx.
Qed.

Lemma lstrip_clean (s : str) : head_clean s = true -> lstrip s = s.
Proof.
  destruct s as [|x s]; [reflexivity|]; simpl.
  now destruct (isspace x).
Qed.

Lemma lstrip_idem (s : str) : lstrip (lstrip s) = lstrip s.
Proof. apply lstrip_clean, lstrip_head_clean. Qed.

Lemma all_space_rev (a : str) : all_space (rev a) = all_space a.
Proof.
  unfold all_space; induction a as [|x a IH]; [reflexivity|].
  simpl; rewrite forallb_app, IH; simpl.
  rewrite andb_true_r; apply andb_comm.
Qed.

Lemma rstrip_split (s : str) :
  exists b, s = rstrip s ++ b /\ all_space b = true.
Proof.
  destruct (lstrip_split (rev s)) as (a & Hs & Ha).
  exists (rev a); split; [|now rewrite all_space_rev].
  unfold rstrip; rewrite <- rev_app_distr, <- Hs; symmetry; apply rev_involutive.
Qed.

Lemma rstrip_idem (s : str) : rstrip (rstrip s) = rstrip s.
Proof.
  unfold rstrip; now rewrite rev_involutive, lstrip_idem.
Qed.

Lemma rstrip_head_clean (s : str) :
  head_clean s = true -> head_clean (rstrip s) = true.
Proof.
  intros H; destruct (rstrip_split s) as (b & Hs & _).
  destruct (rstrip s) as [|y r]; [reflexivity|].
  rewrite Hs in H; exact H.
Qed.

(** X1: [strip] removes whitespace at the two ends and nothing else: the string
    is its trimmed form between two runs of whitespace, and the trimmed form
    has no whitespace left to remove at either end. *)
Theorem strip_spec (s : str) :
  exists a b,
    s = a ++ strip s ++ b /\
    all_space a = true /\ all_space b = true /\
    lstrip (strip s) = strip s /\ rstrip (strip s) = strip s.
Proof.
  destruct (lstrip_split s) as (a & Hs & Ha).
  destruct (rstrip_split (lstrip s)) as (b & Hl & Hb).
  exists a, b; unfold strip.
  split; [rewrite <- Hl; exact Hs|].
  repeat split; auto.
  - apply lstrip_clean, rstrip_head_clean, lstrip_head_clean.
  - apply rstrip_idem.
Qed.

Lemma strip_idem (s : str) : strip (strip s) = strip s.
Proof.
  unfold strip.
  rewrite (lstrip_clean _ (rstrip_head_clean _ (lstrip_head_clean s))).
  apply rstrip_idem.
Qed.

(** X2: the generated answer when the pipeline echoes the prompt before its
    completion, as text-generation pipelines do: the completion, trimmed.
    A generated text no longer than the prompt gives the empty answer. *)
Theorem generated_answer_spec (prompt completion : str) :
  generated_answer prompt (prompt ++ completion) = strip completion /\
  (forall generated_text,
      List.length generated_text <= List.length prompt ->
      generated_answer prompt generated_text = []).
Proof.
  unfold generated_answer; split.
  - rewrite skipn_app, skipn_all, Nat.sub_diag; reflexivity.
  - intros g H; rewrite skipn_all2 by exact H; reflexivity.
Qed.

(* ================================================================= *)
(** * What the delimiter search finds *)

Section Search_spec.

Variables open close : str.

Lemma startswith_true_app (p : str) : forall s,
  startswith p s = true -> exists b, s = p ++ b.
Proof.
  induction p as [|x p IH]; intros s H; [exists s; reflexivity|].
  destruct s as [|y s]; [discriminate|]; simpl in H.
  apply andb_true_iff in H as [Hxy H]; apply N.eqb_eq in Hxy; subst y.
  destruct (IH s H) as [b ->]; exists b; reflexivity.
Qed.

Lemma literal_some (p : str) : forall s r,
  Re.literal p s = Some r -> s = p ++ r.
Proof.
  induction p as [|x p IH]; intros s r H; simpl in H.
  - now injection H as <-.
  - destruct s as [|y s]; [discriminate|].
    destruct (N.eqb x y) eqn:Hxy; [|discriminate].
    apply N.eqb_eq in Hxy; subst y; simpl; f_equal; auto.
Qed.

Lemma no_match_in_nil (p t : str) : no_match_in p [] t.
Proof.
  intros a b Hab Hb; symmetry in Hab.
  apply app_eq_nil in Hab as [_ ->]; congruence.
Qed.

(** The lazy group ends at the first place where [close] matches. *)
Lemma lazy_until_some : forall r g,
  Re.lazy_until close r = Some g ->
  exists b, r = g ++ close ++ b /\ no_match_in close g (close ++ b).
Proof.
  induction r as [|c r IH]; intros g H; rewrite lazy_until_unfold in H.
  - destruct (startswith close []) eqn:E; [|discriminate].
    injection H as <-.
    destruct (startswith_true_app _ _ E) as [b Hb].
    exists b; split; [exact Hb | apply no_match_in_nil].
  - destruct (startswith close (c :: r)) eqn:E.
    + injection H as <-.
      destruct (startswith_true_app _ _ E) as [b Hb].
      exists b; split; [exact Hb | apply no_match_in_nil].
    + destruct (Re.lazy_until close r) as [g'|] eqn:Eg; [|discriminate].
      injection H as <-.
      destruct (IH g' eq_refl) as (b & -> & Hno).
      exists b; split; [reflexivity|].
      apply no_match_in_cons; assumption.
Qed.

(** It exists as soon as [close] occurs somewhere. *)
Lemma lazy_until_defined (g b : str) :
  exists g', Re.lazy_until close (g ++ close ++ b) = Some g'.
Proof.
  induction g as [|c g (g' & IH)]; rewrite lazy_until_unfold.
  - simpl app; rewrite startswith_refl_app; eauto.
  - destruct (startswith close ((c :: g) ++ close ++ b)); [eauto|].
    cbn [app]; rewrite IH; simpl; eauto.
Qed.

Lemma search_defined (a g b : str) :
  exists g', Re.search open close (a ++ open ++ g ++ close ++ b) = Some g'.
Proof.
  induction a as [|x a (g' & IH)]; rewrite search_unfold.
  - unfold Re.match_here; simpl app; rewrite literal_app.
    destruct (lazy_until_defined g b) as [g' ->]; eauto.
  - destruct (Re.match_here open close ((x :: a) ++ open ++ g ++ close ++ b));
      [eauto|].
    cbn [app]; rewrite IH; eauto.
Qed.

(** A match is the leftmost occurrence of [open] and, after it, the first
    occurrence of [close]. *)
Lemma search_some : forall s g,
  Re.search open close s = Some g ->
  exists a b,
    s = a ++ open ++ g ++ close ++ b /\
    no_match_in open a (open ++ g ++ close ++ b) /\
    no_match_in close g (close ++ b).
Proof.
  induction s as [|x s IH]; intros g H; rewrite search_unfold in H.
  - unfold Re.match_here in H.
    destruct (Re.literal open []) as [rest|] eqn:El; [|discriminate].
    destruct (Re.lazy_until close rest) as [g'|] eqn:Eg; [|discriminate].
    injection H as <-.
    apply literal_some in El.
    destruct (lazy_until_some _ Eg) as (b & -> & Hno).
    exists [], b; repeat split; [exact El | apply no_match_in_nil | exact Hno].
  - unfold Re.match_here in H.
    destruct (Re.literal open (x :: s)) as [rest|] eqn:El.
    + apply literal_some in El.
      destruct (Re.lazy_until close rest) as [g'|] eqn:Eg.
      * injection H as <-.
        destruct (lazy_until_some _ Eg) as (b & -> & Hno).
        exists [], b; repeat split;
          [exact El | apply no_match_in_nil | exact Hno].
      * (* a later match would put [close] after this [open] too *)
        exfalso.
        destruct (IH g H) as (a & b & Hs & _ & _).
        assert (Hsplit : open ++ rest = (x :: a ++ open ++ g) ++ close ++ b).
        { rewrite <- El, Hs; simpl; f_equal.
          now rewrite <- !app_assoc. }
        apply app_eq_app in Hsplit as [l [[Ho _] | [_ Hr]]].
        -- apply (f_equal (@List.length char)) in Ho.
           repeat (rewrite length_app in Ho || simpl in Ho); lia.
        -- destruct (lazy_until_defined l b) as [g' Hg'].
           rewrite Hr, Hg' in Eg; discriminate.
    + destruct (IH g H) as (a & b & -> & Hoa & Hcg).
      exists (x :: a), b; repeat split; [|exact Hcg].
      apply no_match_in_cons; [|exact Hoa].
      destruct (startswith open (x :: a ++ open ++ g ++ close ++ b)) eqn:E;
        [|reflexivity].
      destruct (startswith_true_app _ _ E) as [r Hr].
      change (x :: a ++ open ++ g ++ close ++ b)
        with ((x :: a) ++ open ++ g ++ close ++ b) in El.
      simpl app in El; rewrite Hr, literal_app in El; discriminate.
Qed.

End Search_spec.

(** X3: the extraction of a field, in full: it gives [x] exactly when the text
    splits as [a ++ open ++ g ++ close ++ b] where this [open] is the first
    one of the text, this [close] the first one after it, and [x] is [g]
    trimmed. *)
Theorem extract_ok_iff (open close text x : str) :
  extract open close text = Ok x <->
  exists a g b,
    text = a ++ open ++ g ++ close ++ b /\
    no_match_in open a (open ++ g ++ close ++ b) /\
    no_match_in close g (close ++ b) /\
    x = strip g.
Proof.
  unfold extract; split.
  - destruct (Re.search open close text) as [g|] eqn:E; simpl; [|discriminate].
    intros H; injection H as <-.
    destruct (@search_some open close text g E) as (a & b & Ht & Ha & Hg).
    exists a, g, b; auto.
  - intros (a & g & b & -> & Ha & Hg & ->).
    rewrite (@search_skip open close a _ Ha).
    rewrite (@search_hit open close _ g (@lazy_until_first close g b Hg)).
    reflexivity.
Qed.

(** X4: the extraction raises, with the [AttributeError] of [None.group], exactly
    when the text holds no opening delimiter with a closing delimiter after
    it; it raises nothing else. *)
Theorem extract_raises_iff (open close text : str) :
  (extract open close text = Raise Re.AttributeError_group <->
   ~ exists a g b, text = a ++ open ++ g ++ close ++ b) /\
  (forall e, extract open close text = Raise e -> e = Re.AttributeError_group).
Proof.
  unfold extract; split; [split|].
  - intros H (a & g & b & ->).
    destruct (search_defined open close a g b) as [g' Hg'].
    rewrite Hg' in H; discriminate.
  - intros H.
    destruct (Re.search open close text) as [g|] eqn:E; [|reflexivity].
    exfalso; apply H.
    destruct (@search_some open close text g E) as (a & b & Ht & _).
    exists a, g, b; exact Ht.
  - intros e.
    destruct (Re.search open close text); simpl; [discriminate|].
    intros H; injection H as <-; reflexivity.
Qed.

(* ================================================================= *)
(** * The report *)

Lemma getitem_raise (A : Type) (l : list A) (i : Z) (e : exn) :
  getitem l i = Raise e -> e = IndexError_range.
Proof.
  unfold getitem.
  destruct ((0 <=? _) && _)%Z; [|intros H; injection H as <-; reflexivity].
  destruct (nth_error l _); [discriminate|].
  intros H; injection H as <-; reflexivity.
Qed.

(** The report for a conversation of a user turn and an assistant turn whose
    user turn holds both delimiter pairs: four lines are added to the output,
    the two extracted fields, the content of the second turn as the original
    answer, and the generated answer for the prompt made of both turns. *)
Lemma evaluate_two_turns
    (apply_chat_template : list turn -> str) (pipe : str -> str)
    (test : list conversation) (rand_idx : Z)
    (u answer schema query : str) (out : output) :
  getitem test rand_idx = Ok (Conversation [Turn user u; Turn assistant answer]) ->
  extract_schema u = Ok schema ->
  extract_query u = Ok query ->
  let prompt := apply_chat_template [Turn user u; Turn assistant answer] in
  evaluate apply_chat_template pipe test rand_idx out =
  (out ++ report_lines schema query answer
                       (generated_answer prompt (pipe prompt)),
   Ok tt).
Proof.
  intros Ht Hs Hq prompt.
  unfold evaluate, bind, lift, print; rewrite Ht.
  change (getitem (messages (Conversation [Turn user u; Turn assistant answer])) 0)
    with (Ok (Turn user u)).
  change (getitem (messages (Conversation [Turn user u; Turn assistant answer])) 1)
    with (Ok (Turn assistant answer)).
  cbn [content]; rewrite Hs, Hq.
  unfold report_lines, generated_answer, prompt, prompt_turns; cbn [messages firstn].
  rewrite <- !app_assoc; reflexivity.
Qed.

Lemma evaluate_two_turns_witness :
  let prompt := lit "List all users" in
  evaluate (fun _ => lit "List all users") (fun p => p ++ lit " SELECT 1 ")
           [users_conversation] 0 [] =
  ([] ++ report_lines (sql_context users_record) (sql_prompt users_record)
                      (sql users_record)
                      (generated_answer prompt (prompt ++ lit " SELECT 1 ")),
   Ok tt).
Proof.
  apply (@evaluate_two_turns (fun _ => lit "List all users")
           (fun p => p ++ lit " SELECT 1 ") [users_conversation] 0
           (rendered (sql_prompt users_record) (sql_context users_record))
           (sql users_record) (sql_context users_record)
           (sql_prompt users_record) []);
    vm_compute; reflexivity.
Defined.

(** X5: from the builder to the report: for a record whose fields keep clear of
    the delimiters, the report on its conversation shows the context and the
    question trimmed and the record's SQL as the original answer. *)
Theorem evaluate_built
    (apply_chat_template : list turn -> str) (pipe : str -> str)
    (test : list conversation) (rand_idx : Z) (s : sample) (out : output) :
  contains close_schema (sql_context s) = false ->
  contains tag_query (sql_context s) = false ->
  contains close_query (sql_prompt s) = false ->
  getitem test rand_idx = create_conversation s ->
  let prompt := apply_chat_template (messages (built s)) in
  evaluate apply_chat_template pipe test rand_idx out =
  (out ++ report_lines (strip (sql_context s)) (strip (sql_prompt s)) (sql s)
                       (generated_answer prompt (pipe prompt)),
   Ok tt).
Proof.
  intros H1 H2 H3 Ht prompt.
  rewrite create_conversation_eq in Ht.
  unfold evaluate, bind, lift, print; rewrite Ht.
  change (getitem (messages (Conversation
            [Turn user (rendered (sql_prompt s) (sql_context s));
             Turn assistant (sql s)])) 0)
    with (Ok (Turn user (rendered (sql_prompt s) (sql_context s)))).
  change (getitem (messages (Conversation
            [Turn user (rendered (sql_prompt s) (sql_context s));
             Turn assistant (sql s)])) 1)
    with (Ok (Turn assistant (sql s))).
  cbn [content].
  rewrite (@extract_schema_rendered (sql_prompt s) _ H1).
  rewrite (@extract_query_rendered _ _ H2 H3).
  unfold report_lines, generated_answer, prompt, prompt_turns, built.
  cbn [messages firstn].
  rewrite <- !app_assoc; reflexivity.
Qed.

Lemma evaluate_built_witness :
  let prompt := lit "List all users" in
  evaluate (fun _ => lit "List all users") (fun p => p ++ lit " SELECT 1 ")
           [built padded_record] 0 [] =
  ([] ++ report_lines (strip (sql_context padded_record))
                      (strip (sql_prompt padded_record))
                      (sql padded_record)
                      (generated_answer prompt (prompt ++ lit " SELECT 1 ")),
   Ok tt).
Proof.
  apply (@evaluate_built (fun _ => lit "List all users")
           (fun p => p ++ lit " SELECT 1 ") [built padded_record] 0
           padded_record []);
    vm_compute; reflexivity.
Defined.

(** X7: whatever the test subset, the drawn index and the collaborator: the
    evaluation only adds lines to the output, at most four; it adds four
    exactly when it ends normally; and the only exceptions its own steps
    raise are the [IndexError] of a lookup and the [AttributeError] of a
    failed delimiter search. *)
Theorem evaluate_shape
    (apply_chat_template : list turn -> str) (pipe : str -> str)
    (test : list conversation) (rand_idx : Z) (out : output) :
  exists lines,
    fst (evaluate apply_chat_template pipe test rand_idx out) = out ++ lines /\
    List.length lines <= 4 /\
    (snd (evaluate apply_chat_template pipe test rand_idx out) = Ok tt <->
     List.length lines = 4) /\
    (forall e,
        snd (evaluate apply_chat_template pipe test rand_idx out) = Raise e ->
        e = IndexError_range \/ e = Re.AttributeError_group).
Proof.
  unfold evaluate, bind, lift, print, extract_schema, extract_query, extract.
  destruct (getitem test rand_idx) as [ts|e1] eqn:E1.
  2:{ exists []; rewrite app_nil_r; simpl; repeat split;
        try lia; try discriminate.
      intros e H; injection H as <-; left; eapply getitem_raise; eauto. }
  destruct (getitem (messages ts) 0) as [m0|e2] eqn:E2.
  2:{ exists []; rewrite app_nil_r; simpl; repeat split;
        try lia; try discriminate.
      intros e H; injection H as <-; left; eapply getitem_raise; eauto. }
  destruct (Re.search open_schema close_schema (content m0)) as [g|]; simpl.
  2:{ exists []; rewrite app_nil_r; simpl; repeat split;
        try lia; try discriminate.
      intros e H; injection H as <-; right; reflexivity. }
  destruct (Re.search open_query close_query (content m0)) as [g'|]; simpl.
  2:{ eexists; split; [reflexivity|]; simpl; repeat split;
        try lia; try discriminate.
      intros e H; injection H as <-; right; reflexivity. }
  destruct (getitem (messages ts) 1) as [m1|e3] eqn:E3; simpl.
  2:{ eexists; split; [rewrite <- app_assoc; reflexivity|]; simpl;
        repeat split; try lia; try discriminate.
      intros e H; injection H as <-; left; eapply getitem_raise; eauto. }
  eexists; split; [rewrite <- !app_assoc; reflexivity|]; simpl.
  repeat split; try lia; discriminate.
Qed.

(** X8: the draw of line 167 and the lookup of line 168: a draw either equals
    the length of the test subset, and then the evaluation stops with an
    [IndexError] and prints nothing, or it lies below the length, and then
    the lookup gives the record at that position. *)
Theorem draw_lookup
    (apply_chat_template : list turn -> str) (pipe : str -> str)
    (test : list conversation) (r : Z) (out : output) :
  rand_idx_draw test r ->
  (r = Z.of_nat (List.length test) /\
   evaluate apply_chat_template pipe test r out = (out, Raise IndexError_range))
  \/
  ((0 <= r < Z.of_nat (List.length test))%Z /\
   exists c, nth_error test (Z.to_nat r) = Some c /\ getitem test r = Ok c).
Proof.
  unfold rand_idx_draw, randint; intros [H0 Hn].
  destruct (Z.eq_dec r (Z.of_nat (List.length test))) as [->|Hne].
  - left; split; [reflexivity|].
    unfold evaluate, bind, lift.
    now rewrite (proj2 (rand_idx_can_be_length test)).
  - right; split; [lia|].
    unfold getitem.
    destruct (r <? 0)%Z eqn:E; [apply Z.ltb_lt in E; lia|].
    replace ((0 <=? r) && (r <? Z.of_nat (List.length test)))%Z with true
      by (symmetry; apply andb_true_iff; split;
          [apply Z.leb_le | apply Z.ltb_lt]; lia).
    destruct (nth_error test (Z.to_nat r)) as [c|] eqn:En; [eauto|].
    apply nth_error_None in En; lia.
Qed.

Lemma draw_lookup_witness :
  (0%Z = Z.of_nat (List.length [users_conversation]) /\
   evaluate (fun _ => []) (fun p => p) [users_conversation] 0 []
   = ([], Raise IndexError_range))
  \/
  ((0 <= 0 < Z.of_nat (List.length [users_conversation]))%Z /\
   exists c, nth_error [users_conversation] (Z.to_nat 0) = Some c /\
             getitem [users_conversation] 0 = Ok c).
Proof.
  apply (@draw_lookup (fun _ => []) (fun p => p) [users_conversation] 0 []).
  unfold rand_idx_draw, randint; simpl; lia.
Defined.

(* ================================================================= *)
(** * The dataset *)

(** X9: the conversion of the dataset never fails and gives, in order, the
    two-turn conversation of each record. *)
Theorem dataset_map_create (ds : list sample) :
  dataset_map create_conversation ds = Ok (List.map built ds).
Proof.
  induction ds as [|s ds IH]; [reflexivity|].
  cbn [dataset_map List.map].
  rewrite create_conversation_eq, IH; reflexivity.
Qed.

(** X10: line 46 on a training subset of built conversations: with at most 345
    records it raises an [IndexError] and prints nothing; otherwise it
    prints the SQL of record 345, the content of the assistant turn. *)
Theorem print_train_sample_spec (records : list sample) (out : output) :
  (List.length records <= 345 /\
   print_train_sample (List.map built records) out
   = (out, Raise IndexError_range))
  \/
  (exists s, nth_error records 345 = Some s /\
             print_train_sample (List.map built records) out
             = (out ++ [print_text [sql s]], Ok tt)).
Proof.
  unfold print_train_sample, bind, lift, print, getitem.
  rewrite length_map.
  destruct (345 <? 0)%Z eqn:E0; [discriminate|]; clear E0.
  destruct (nth_error records 345) as [s|] eqn:En.
  - right; exists s; split; [reflexivity|].
    assert (Hlt : 345 < List.length records)
      by (apply nth_error_Some; congruence).
    replace ((0 <=? 345) && (345 <? Z.of_nat (List.length records)))%Z
      with true
      by (symmetry; apply andb_true_iff; split;
          [reflexivity | apply Z.ltb_lt; lia]).
    change (Z.to_nat 345) with 345.
    rewrite nth_error_map, En; reflexivity.
  - left; apply nth_error_None in En; split; [exact En|].
    replace ((0 <=? 345) && (345 <? Z.of_nat (List.length records)))%Z
      with false
      by (symmetry; apply andb_false_iff; right; apply Z.ltb_ge; lia).
    reflexivity.
Qed.

(** X11: the builder is injective on records whose context holds no newline
    followed by [</SCHEMA>]: such records with the same conversation are the
    same record. *)
Theorem create_conversation_injective (s s' : sample) :
  contains close_schema (sql_context s) = false ->
  contains close_schema (sql_context s') = false ->
  create_conversation s = create_conversation s' ->
  s = s'.
Proof.
  intros Hc Hc'; rewrite !create_conversation_eq; intros H.
  assert (Hr : rendered (sql_prompt s) (sql_context s)
               = rendered (sql_prompt s') (sql_context s')) by congruence.
  assert (Hsql : sql s = sql s') by congruence.
  clear H.
  pose proof (@search_schema_rendered (sql_prompt s) _ Hc) as E.
  rewrite Hr, (@search_schema_rendered (sql_prompt s') _ Hc') in E.
  injection E as Ectx.
  rewrite <- Ectx in Hr.
  change (rendered (sql_prompt s) (sql_context s'))
    with ((preamble ++ [nl; nl] ++ open_schema) ++ sql_context s'
          ++ (close_schema ++ [nl; nl] ++ open_query) ++ sql_prompt s
          ++ (close_query ++ [nl])) in Hr.
  change (rendered (sql_prompt s') (sql_context s'))
    with ((preamble ++ [nl; nl] ++ open_schema) ++ sql_context s'
          ++ (close_schema ++ [nl; nl] ++ open_query) ++ sql_prompt s'
          ++ (close_query ++ [nl])) in Hr.
  do 3 apply app_inv_head in Hr.
  apply app_inv_tail in Hr.
  destruct s, s'; simpl in *; congruence.
Qed.

Lemma create_conversation_injective_witness : users_record = users_record.
Proof.
  apply (@create_conversation_injective users_record users_record);
    reflexivity.
Defined.

(** Without the condition it is not: the same prompt is built for two
    different records. *)
Lemma create_conversation_not_injective :
  split_early <> split_late /\
  create_conversation split_early = create_conversation split_late.
Proof. split; [discriminate | vm_compute; reflexivity]. Qed.

(** X12: the template rendered with any keyword arguments: [context] is looked
    up first, then [question]; a missing one raises its [KeyError], and
    keywords beyond the two are ignored. *)
Theorem user_prompt_format_kwargs (kw : Format.kwargs) :
  Format.format user_prompt kw =
  rbind (Format.lookup (lit "context") kw) (fun c =>
  rbind (Format.lookup (lit "question") kw) (fun q =>
  Ok (rendered q c))).
Proof.
  unfold Format.format, rbind.
  cbv -[Format.lookup].
  repeat match goal with
         | |- context [Format.lookup ?k kw] => destruct (Format.lookup k kw)
         end; reflexivity.
Qed.

(* ================================================================= *)
(** * The two selections compared, and the flags *)

(** X13: the selections of [script.py] and [test.py] give the same result
    exactly on a machine with an accelerator whose capability probe answers
    (or raises what [except Exception] lets through). *)
Theorem selectors_agree_iff (env : cuda) :
  ScriptPy.torch_dtype env = snd (TestPy.torch_dtype env) <->
  is_available env = true /\
  (forall e, get_device_capability env = Raise e -> is_Exception e = false).
Proof.
  unfold ScriptPy.torch_dtype, TestPy.torch_dtype, rbind.
  destruct env as [avail [cap|e]]; simpl.
  - destruct avail, (fst cap >=? 8)%Z; simpl;
      (split;
       [ intros H;
         first [ discriminate H
               | split; [reflexivity | intros e' H'; discriminate H'] ]
       | intros [H _]; first [reflexivity | discriminate H] ]).
  - destruct avail; simpl.
    + destruct (is_Exception e) eqn:He; simpl; split.
      * discriminate.
      * intros [_ H]; specialize (H e eq_refl); congruence.
      * intros _; split; [reflexivity|].
        intros e' H; injection H as <-; exact He.
      * reflexivity.
    + split; [discriminate | intros [H _]; discriminate].
Qed.

(** X14: with the selection of [script.py], exactly one of the flags [fp16] and
    [bf16] is set, and it is [bf16] exactly when the major capability is at
    least 8. *)
Theorem sft_flags (env : cuda) (d : dtype) :
  ScriptPy.torch_dtype env = Ok d ->
  xorb (fp16 d) (bf16 d) = true /\
  (bf16 d = true <->
   exists major minor,
     get_device_capability env = Ok (major, minor) /\ (8 <= major)%Z).
Proof.
  unfold ScriptPy.torch_dtype, rbind.
  destruct (get_device_capability env) as [[major minor]|e]; [|discriminate].
  simpl; destruct (major >=? 8)%Z eqn:E; intros H; injection H as <-;
    (split; [reflexivity|]); split.
  - intros _; exists major, minor; split; [reflexivity|].
    rewrite Z.geb_leb in E; apply Z.leb_le; exact E.
  - reflexivity.
  - discriminate.
  - intros (major' & minor' & H & Hle); injection H as <- <-.
    rewrite Z.geb_leb in E; apply Z.leb_gt in E; lia.
Qed.

Lemma sft_flags_witness :
  xorb (fp16 bfloat16) (bf16 bfloat16) = true /\
  (bf16 bfloat16 = true <->
   exists major minor,
     get_device_capability ampere = Ok (major, minor) /\ (8 <= major)%Z).
Proof.
  apply (@sft_flags ampere bfloat16); reflexivity.
Defined.

(** X15: with the selection of [test.py] the two flags are never both set, and
    both are off exactly when it chose [float32], that is, without
    accelerator. *)
Theorem test_py_flags (env : cuda) (out : output) (d : dtype) :
  TestPy.torch_dtype env = (out, Ok d) ->
  fp16 d && bf16 d = false /\
  (fp16 d || bf16 d = false <-> is_available env = false).
Proof.
  unfold TestPy.torch_dtype.
  destruct (is_available env).
  - destruct (get_device_capability env) as [cap|e].
    + destruct (fst cap >=? 8)%Z; intros H; injection H as <- <-;
        (split; [reflexivity|]); split; discriminate.
    + destruct (is_Exception e); [|discriminate].
      intros H; injection H as <- <-.
      (split; [reflexivity|]); split; discriminate.
  - intros H; injection H as <- <-.
    (split; [reflexivity|]); split; reflexivity.
Qed.

Lemma test_py_flags_witness :
  fp16 float32 && bf16 float32 = false /\
  (fp16 float32 || bf16 float32 = false <->
   is_available (no_accelerator (Ok (8, 6)%Z)) = false).
Proof.
  apply (@test_py_flags (no_accelerator (Ok (8, 6)%Z))
           [print_text [lit "CUDA not available, using CPU with float32"]]
           float32);
    reflexivity.
Defined.

(* ================================================================= *)
(** * Built conversations, whatever the fields hold *)

Lemma lazy_until_prefix (close : str) : forall c r g,
  Re.lazy_until close (c ++ close ++ r) = Some g ->
  exists rest, c = g ++ rest.
Proof.
  induction c as [|x c IH]; intros r g H; rewrite lazy_until_unfold in H.
  - simpl app in H; rewrite startswith_refl_app in H.
    injection H as <-; exists []; reflexivity.
  - destruct (startswith close ((x :: c) ++ close ++ r)).
    + injection H as <-; exists (x :: c); reflexivity.
    + cbn [app] in H.
      destruct (Re.lazy_until close (c ++ close ++ r)) as [g'|] eqn:E;
        [|discriminate].
      injection H as <-.
      destruct (IH r g' E) as [rest ->]; exists rest; reflexivity.
Qed.

(** For every question and context, clean or not, both extractions from
    the rendered prompt succeed, and the schema they give is the trimmed
    form of a prefix of the context (all of it when the context holds no
    newline followed by [</SCHEMA>]). *)
Lemma extract_rendered_defined (q c : str) :
  (exists g rest,
      c = g ++ rest /\
      extract_schema (rendered q c) = Ok (strip g) /\
      (contains close_schema c = false -> rest = [])) /\
  (exists y, extract_query (rendered q c) = Ok y).
Proof.
  split.
  - unfold extract_schema, extract.
    change (rendered q c)
      with ((preamble ++ [nl; nl]) ++ open_schema ++ c ++ close_schema
            ++ ([nl; nl] ++ open_query ++ q ++ close_query ++ [nl])).
    rewrite search_skip_decided by (vm_compute; reflexivity).
    destruct (lazy_until_defined close_schema c
                ([nl; nl] ++ open_query ++ q ++ close_query ++ [nl]))
      as [g Hg].
    destruct (lazy_until_prefix _ _ _ Hg) as [rest Hrest].
    exists g, rest; split; [exact Hrest|]; split.
    + now rewrite (@search_hit open_schema close_schema _ g Hg).
    + intros Hc.
      rewrite (@lazy_until_first close_schema c _
                 (@no_match_in_tail close_schema c nl _ Hc eq_refl)) in Hg.
      injection Hg as <-.
      rewrite <- (app_nil_r c) in Hrest at 1.
      apply app_inv_head in Hrest; auto.
  - unfold extract_query, extract.
    replace (rendered q c)
      with ((preamble ++ [nl; nl] ++ open_schema ++ c ++ close_schema
             ++ [nl; nl]) ++ open_query ++ q ++ close_query ++ [nl])
      by (unfold rendered; repeat (rewrite <- app_assoc; simpl app);
          reflexivity).
    destruct (search_defined open_query close_query
                (preamble ++ [nl; nl] ++ open_schema ++ c ++ close_schema
                 ++ [nl; nl]) q [nl]) as [g ->].
    eexists; reflexivity.
Qed.

(** X6: the evaluation of a built conversation never fails at the delimiter
    search.  Whatever the record holds, it prints its four lines and ends
    normally; the schema line shows the trimmed form of a prefix of the
    context, which is the whole context when that holds no newline followed
    by [</SCHEMA>]. *)
Theorem evaluate_built_total
    (apply_chat_template : list turn -> str) (pipe : str -> str)
    (test : list conversation) (rand_idx : Z) (s : sample) (out : output) :
  getitem test rand_idx = create_conversation s ->
  exists g rest query generated,
    sql_context s = g ++ rest /\
    (contains close_schema (sql_context s) = false -> rest = []) /\
    evaluate apply_chat_template pipe test rand_idx out =
    (out ++ report_lines (strip g) query (sql s) generated, Ok tt).
Proof.
  intros Ht; rewrite create_conversation_eq in Ht.
  destruct (extract_rendered_defined (sql_prompt s) (sql_context s))
    as ((g & rest & Hc & Hs & Hrest) & (y & Hq)).
  exists g, rest, y; eexists; repeat split; [exact Hc | exact Hrest |].
  exact (@evaluate_two_turns apply_chat_template pipe test rand_idx
           _ _ _ _ out Ht Hs Hq).
Qed.

Lemma evaluate_built_total_witness :
  exists g rest query generated,
    sql_context nested_record = g ++ rest /\
    (contains close_schema (sql_context nested_record) = false -> rest = []) /\
    evaluate (fun _ => []) (fun p => p) [built nested_record] 0 [] =
    ([] ++ report_lines (strip g) query (sql nested_record) generated, Ok tt).
Proof.
  apply (@evaluate_built_total (fun _ => []) (fun p => p)
           [built nested_record] 0 nested_record []).
  vm_compute; reflexivity.
Defined.
